(** * Event Task Matrix (ETM) driver of esp-hal: src/esp-hal/src/etm.rs

    Shallow embedding of the ETM channel driver.  The driver code issues
    an ordered list of effects: register accesses through the PAC
    ([modify] = read-modify-write of a register, [write] = write of a
    word built from the register's reset value) and the acquisition or
    release of the peripheral-usage guard.  The reaction of the ETM
    register block to these accesses follows the register protocol:
    writing 1 to bit [b] of a set (clear) strobe register sets (clears)
    bit [b] of the bank's enable bitmap; writing 0 has no effect. *)

From Stdlib Require Import Arith ZArith List Lia Bool.
From Stdlib Require Import Permutation.
Import ListNotations.

Module Etm.

(** ** Registers and hardware state *)

(** The registers of the ETM block the driver accesses:
    [ch(C).evt_id], [ch(C).task_id], [ch_ena_ad0_set], [ch_ena_ad0_clr],
    [ch_ena_ad1_set], [ch_ena_ad1_clr]. *)
Inductive reg :=
| ChEvtId (ch : nat)
| ChTaskId (ch : nat)
| ChEnaAd0Set
| ChEnaAd0Clr
| ChEnaAd1Set
| ChEnaAd1Clr.

(** Observable hardware state: the 32-bit id register of every channel,
    the two 32-bit enable bitmaps (low bank: channels 0..31, high bank:
    channels 32..), and the count of live peripheral-usage guards. *)
Record hw := mkHw {
  evt_id_reg : nat -> Z;
  task_id_reg : nat -> Z;
  ch_ena_ad0 : Z;
  ch_ena_ad1 : Z;
  usage_count : nat
}.

(** Width of the [evt_id] and [task_id] fields (bits 0..7). *)
Definition evt_id_mask : Z := 255.
Definition task_id_mask : Z := 255.

(** Reset value of the strobe registers, the start of a PAC [write]. *)
Definition strobe_reset : Z := 0.

Definition upd (f : nat -> Z) (k : nat) (v : Z) : nat -> Z :=
  fun k' => if Nat.eqb k' k then v else f k'.

(** Value read back from a register (the strobe registers read as 0). *)
Definition read_reg (s : hw) (r : reg) : Z :=
  match r with
  | ChEvtId c => evt_id_reg s c
  | ChTaskId c => task_id_reg s c
  | _ => 0%Z
  end.

(** Reaction of the register block to a bus write of word [v] to [r]. *)
Definition bus_write (s : hw) (r : reg) (v : Z) : hw :=
  match r with
  | ChEvtId c =>
      mkHw (upd (evt_id_reg s) c v) (task_id_reg s) (ch_ena_ad0 s) (ch_ena_ad1 s)
        (usage_count s)
  | ChTaskId c =>
      mkHw (evt_id_reg s) (upd (task_id_reg s) c v) (ch_ena_ad0 s) (ch_ena_ad1 s)
        (usage_count s)
  | ChEnaAd0Set =>
      mkHw (evt_id_reg s) (task_id_reg s) (Z.lor (ch_ena_ad0 s) v) (ch_ena_ad1 s)
        (usage_count s)
  | ChEnaAd0Clr =>
      mkHw (evt_id_reg s) (task_id_reg s) (Z.land (ch_ena_ad0 s) (Z.lnot v))
        (ch_ena_ad1 s) (usage_count s)
  | ChEnaAd1Set =>
      mkHw (evt_id_reg s) (task_id_reg s) (ch_ena_ad0 s) (Z.lor (ch_ena_ad1 s) v)
        (usage_count s)
  | ChEnaAd1Clr =>
      mkHw (evt_id_reg s) (task_id_reg s) (ch_ena_ad0 s)
        (Z.land (ch_ena_ad1 s) (Z.lnot v)) (usage_count s)
  end.

(** ** Effects issued by the driver *)

Inductive effect :=
| GuardAcquire                          (* GenericPeripheralGuard::new() *)
| GuardRelease                          (* drop of the GenericPeripheralGuard *)
| ModifyField (r : reg) (mask v : Z)    (* r.modify(|_, w| w.field().bits(v)) *)
| Write (r : reg) (v : Z).              (* r.write(|w| ...) with final word v *)

(** The field writer of a [modify]: the word read back, with the field
    (at offset 0, of width [mask]) replaced by [v] masked to the width. *)
Definition field_bits (mask v old : Z) : Z :=
  Z.lor (Z.land old (Z.lnot mask)) (Z.land v mask).

(** One effect: the new state and the bus writes it performs. *)
Definition step (s : hw) (e : effect) : hw * list (reg * Z) :=
  match e with
  | GuardAcquire =>
      (mkHw (evt_id_reg s) (task_id_reg s) (ch_ena_ad0 s) (ch_ena_ad1 s)
         (S (usage_count s)), [])
  | GuardRelease =>
      (mkHw (evt_id_reg s) (task_id_reg s) (ch_ena_ad0 s) (ch_ena_ad1 s)
         (Nat.pred (usage_count s)), [])
  | ModifyField r mask v =>
      let w := field_bits mask v (read_reg s r) in (bus_write s r w, [(r, w)])
  | Write r v => (bus_write s r v, [(r, v)])
  end.

Fixpoint run (s : hw) (es : list effect) : hw * list (reg * Z) :=
  match es with
  | [] => (s, [])
  | e :: es' =>
      let (s1, w1) := step s e in
      let (s2, w2) := run s1 es' in
      (s2, w1 ++ w2)
  end.

(** ** The driver *)

(** [trait EtmEvent { fn id(&self) -> u8; }] and [trait EtmTask]. *)
Class EtmEvent (E : Type) := { event_id : E -> Z }.
Class EtmTask (T : Type) := { task_id : T -> Z }.

(** [EtmChannel<const C: u8>]: an unconfigured channel, its index [C]. *)
Record EtmChannel := mkEtmChannel { channel_index : nat }.

(** [EtmConfiguredChannel<'a, E, T, C>]: the borrowed event and task;
    its [_guard] field is the usage guard, whose acquisition and release
    are the [GuardAcquire] and [GuardRelease] effects. *)
Record EtmConfiguredChannel (E T : Type) := mkEtmConfiguredChannel {
  configured_index : nat;
  _event : E;
  _task : T
}.
Arguments mkEtmConfiguredChannel {E T}.
Arguments configured_index {E T}.

(** [ch_set(n).set_bit()] / [ch_clr(n).set_bit()] on the reset value. *)
Definition strobe_bit (n : nat) : Z := Z.lor strobe_reset (Z.shiftl 1 (Z.of_nat n)).

(** [EtmChannel::setup]. *)
Definition setup {E T} `{EtmEvent E} `{EtmTask T}
    (self : EtmChannel) (event : E) (task : T)
    : EtmConfiguredChannel E T * list effect :=
  let C := channel_index self in
  (mkEtmConfiguredChannel C event task,
   [GuardAcquire;
    ModifyField (ChEvtId C) evt_id_mask (event_id event);
    ModifyField (ChTaskId C) task_id_mask (task_id task)] ++
   (if Nat.ltb C 32
    then [Write ChEnaAd0Set (strobe_bit C)]
    else [Write ChEnaAd1Set (strobe_bit (C - 32))])).

(** [disable_channel]. *)
Definition disable_channel (channel : nat) : list effect :=
  if Nat.ltb channel 32
  then [Write ChEnaAd0Clr (strobe_bit channel)]
  else [Write ChEnaAd1Clr (strobe_bit (channel - 32))].

(** [Drop for EtmConfiguredChannel]: the body of [drop] (the [debug!]
    log line has no effect on the hardware), then the drop of the fields
    in declaration order, of which only [_guard] has an effect. *)
Definition drop_configured {E T} (self : EtmConfiguredChannel E T) : list effect :=
  disable_channel (configured_index self) ++ [GuardRelease].

(** The channel numbers of the [create_etm!] invocation. *)
Definition etm_channel_numbers : list nat :=
  [0; 1; 2; 3; 4; 5; 6; 7; 8; 9; 10; 11; 12; 13; 14; 15; 16; 17; 18; 19; 20;
   21; 22; 23; 24; 25; 26; 27; 28; 29; 30; 31; 32; 33; 34; 35; 36; 37; 38; 39;
   40; 41; 42; 43; 44; 45; 46; 47; 48; 49].

(** [Etm<'d>]: the peripheral handle and the [channelN] fields, in order. *)
Record Etm (P : Type) := mkEtm {
  _peripheral : P;
  etm_channels : list EtmChannel
}.
Arguments mkEtm {P}.
Arguments etm_channels {P}.

(** [Etm::new]: builds the struct; no register access, no guard. *)
Definition etm_new {P} (peripheral : P) : Etm P * list effect :=
  (mkEtm peripheral (map mkEtmChannel etm_channel_numbers), []).

(** ** Reading aids *)

(** Enable bitmap of the bank holding channel [i]. *)
Definition enable_bank (s : hw) (i : nat) : Z :=
  if Nat.ltb i 32 then ch_ena_ad0 s else ch_ena_ad1 s.

(** A peripheral binding whose [id()] is a fixed code. *)
Record IdEvent := mkIdEvent { id_event_code : Z }.
Record IdTask := mkIdTask { id_task_code : Z }.
#[export] Instance IdEvent_EtmEvent : EtmEvent IdEvent := { event_id := id_event_code }.
#[export] Instance IdTask_EtmTask : EtmTask IdTask := { task_id := id_task_code }.

(** Hardware state at reset. *)
Definition reset_hw : hw := mkHw (fun _ => 0%Z) (fun _ => 0%Z) 0%Z 0%Z 0%nat.

(** ** Ownership of channel values

    [EtmChannel] and [EtmConfiguredChannel] implement neither [Clone] nor
    [Copy]: a value is held by the program until an operation consumes
    it.  A world records whether the ETM peripheral handle [ETM<'d>] is
    still held, the unconfigured channel values held and the live
    configured-channel guards, by index.  An operation on a value the
    program does not hold does not type-check: [exec] returns [None].

    [Etm::new] takes the handle by value.  The handle type
    [crate::peripherals::ETM<'d>] is declared outside this file; like the
    other peripheral singletons of the HAL it can be reborrowed
    ([p.reborrow() : ETM<'_>]), and [Etm::new] then takes the reborrow.
    [EtmChannel<C>] carries no lifetime, so the channels moved out of the
    [Etm<'_>] outlive the reborrow and the handle is held again after it. *)
Record world := mkWorld {
  handle_owned : bool;
  unconfigured : list nat;
  live_guards : list nat
}.

Inductive op :=
| OpNew                 (* Etm::new(p), then moving the fields out *)
| OpNewReborrow         (* Etm::new(p.reborrow()), then moving the fields out *)
| OpSetup (i : nat)     (* channel_i.setup(&event, &task) *)
| OpDropGuard (i : nat) (* drop of the configured channel of index i *)
| OpDropChannel (i : nat). (* drop of the unconfigured channel of index i *)

Fixpoint remove_one (i : nat) (l : list nat) : list nat :=
  match l with
  | [] => []
  | x :: l' => if Nat.eqb x i then l' else x :: remove_one i l'
  end.

Definition holds (i : nat) (l : list nat) : bool := existsb (Nat.eqb i) l.

Definition exec (w : world) (o : op) : option world :=
  match o with
  | OpNew =>
      if handle_owned w
      then Some (mkWorld false
                   (unconfigured w ++ map channel_index (etm_channels (fst (etm_new tt))))
                   (live_guards w))
      else None
  | OpNewReborrow =>
      if handle_owned w
      then Some (mkWorld true
                   (unconfigured w ++ map channel_index (etm_channels (fst (etm_new tt))))
                   (live_guards w))
      else None
  | OpSetup i =>
      if holds i (unconfigured w)
      then Some (mkWorld (handle_owned w) (remove_one i (unconfigured w))
                   (i :: live_guards w))
      else None
  | OpDropGuard i =>
      if holds i (live_guards w)
      then Some (mkWorld (handle_owned w) (unconfigured w) (remove_one i (live_guards w)))
      else None
  | OpDropChannel i =>
      if holds i (unconfigured w)
      then Some (mkWorld (handle_owned w) (remove_one i (unconfigured w)) (live_guards w))
      else None
  end.

Fixpoint exec_all (w : world) (ops : list op) : option world :=
  match ops with
  | [] => Some w
  | o :: ops' =>
      match exec w o with
      | Some w' => exec_all w' ops'
      | None => None
      end
  end.

(** Program start: the peripheral handle is held, no channel exists. *)
Definition init_world : world := mkWorld true [] [].

(** Calls of [Etm::new] in a sequence of operations. *)
Definition is_new (o : op) : bool :=
  match o with
  | OpNew | OpNewReborrow => true
  | _ => false
  end.

Fixpoint count_news (ops : list op) : nat :=
  match ops with
  | [] => 0
  | o :: ops' => ((if is_new o then 1 else 0) + count_news ops')%nat
  end.

(** Each index is held at most [n] times, among unconfigured channels and
    live guards together. *)
Definition world_mult (n : nat) (w : world) : Prop :=
  forall i, (count_occ Nat.eq_dec (unconfigured w ++ live_guards w) i <= n)%nat.

(** Every index held, unconfigured or with a live guard, is a channel
    of the matrix. *)
Definition world_bounded (w : world) : Prop :=
  forall j, In j (unconfigured w ++ live_guards w) -> (j < 50)%nat.

(** ** Ownership and hardware together

    A program run: each operation on the values the program holds, with
    the effects the driver issues for it on the register block.
    [SysSetup i ec tc] configures channel [i] with an event whose [id()]
    is [ec] and a task whose [id()] is [tc]. *)
Inductive sys_op :=
| SysNew
| SysNewReborrow
| SysSetup (i : nat) (evt_code task_code : Z)
| SysDropGuard (i : nat)
| SysDropChannel (i : nat).

Definition sys_owner_op (o : sys_op) : op :=
  match o with
  | SysNew => OpNew
  | SysNewReborrow => OpNewReborrow
  | SysSetup i _ _ => OpSetup i
  | SysDropGuard i => OpDropGuard i
  | SysDropChannel i => OpDropChannel i
  end.

(** Effects of each operation.  The effects of dropping a configured
    channel depend only on its index, not on the borrowed event and task;
    [EtmChannel] has no [Drop] impl, so dropping it has no effect. *)
Definition sys_effects (o : sys_op) : list effect :=
  match o with
  | SysNew | SysNewReborrow => snd (etm_new tt)
  | SysSetup i ec tc => snd (setup (mkEtmChannel i) (mkIdEvent ec) (mkIdTask tc))
  | SysDropGuard i => drop_configured (mkEtmConfiguredChannel i (mkIdEvent 0) (mkIdTask 0))
  | SysDropChannel _ => []
  end.

Definition sys_step (st : world * hw) (o : sys_op) : option (world * hw) :=
  match exec (fst st) (sys_owner_op o) with
  | Some w' => Some (w', fst (run (snd st) (sys_effects o)))
  | None => None
  end.

Fixpoint sys_run (st : world * hw) (ops : list sys_op) : option (world * hw) :=
  match ops with
  | [] => Some st
  | o :: ops' =>
      match sys_step st o with
      | Some st' => sys_run st' ops'
      | None => None
      end
  end.

(** Two hardware states that agree on every register and the usage count. *)
Definition hw_same (s1 s2 : hw) : Prop :=
  (forall c, evt_id_reg s1 c = evt_id_reg s2 c) /\
  (forall c, task_id_reg s1 c = task_id_reg s2 c) /\
  ch_ena_ad0 s1 = ch_ena_ad0 s2 /\ ch_ena_ad1 s1 = ch_ena_ad1 s2 /\
  usage_count s1 = usage_count s2.

(** Invariant of a program run started from hardware state [s0], after
    [n] calls of [Etm::new]. *)
Definition sys_inv (s0 : hw) (n : nat) (st : world * hw) : Prop :=
  world_bounded (fst st) /\ world_mult n (fst st) /\
  usage_count (snd st) = (usage_count s0 + length (live_guards (fst st)))%nat /\
  (forall j, (j < 50)%nat ->
     Z.testbit (enable_bank (snd st) j) (Z.of_nat (j mod 32)) = true ->
     In j (live_guards (fst st))) /\
  ((n <= 1)%nat -> forall j, (j < 50)%nat ->
     In j (live_guards (fst st)) ->
     Z.testbit (enable_bank (snd st) j) (Z.of_nat (j mod 32)) = true).

(** ** Properties *)

Example setup_ch0_regs :
  let s := fst (run reset_hw (snd (setup (mkEtmChannel 0) (mkIdEvent 5) (mkIdTask 9)))) in
  (evt_id_reg s 0, task_id_reg s 0, ch_ena_ad0 s, ch_ena_ad1 s, usage_count s)
  = (5%Z, 9%Z, 1%Z, 0%Z, 1%nat).
Proof. reflexivity. Qed.

Example setup_ch33_regs :
  let s := fst (run reset_hw (snd (setup (mkEtmChannel 33) (mkIdEvent 5) (mkIdTask 9)))) in
  (ch_ena_ad0 s, ch_ena_ad1 s) = (0%Z, 2%Z).
Proof. reflexivity. Qed.


(** *** Bit-level helpers *)

Lemma strobe_bit_pow (n : nat) : strobe_bit n = Z.shiftl 1 (Z.of_nat n).
Proof. unfold strobe_bit, strobe_reset. apply Z.lor_0_l. Qed.

Lemma testbit_shiftl_1 (k m : Z) :
  (0 <= k)%Z -> (0 <= m)%Z -> Z.testbit (Z.shiftl 1 k) m = Z.eqb k m.
Proof. intros Hk Hm. rewrite Z.shiftl_1_l. apply Z.pow2_bits_eqb. exact Hk. Qed.

(** Channel [i] of the [create_etm!] range lies in the low bank at
    offset [i], or in the high bank at offset [i - 32]; both are [i mod 32]. *)
Lemma bank_cases (i : nat) :
  (i < 50)%nat ->
  (Nat.ltb i 32 = true /\ i mod 32 = i)%nat \/
  (Nat.ltb i 32 = false /\ i mod 32 = i - 32 /\ i - 32 < 32)%nat.
Proof.
  intros Hi. destruct (Nat.ltb_spec i 32) as [Hlt | Hge].
  - left. split; [reflexivity | apply Nat.mod_small; exact Hlt].
  - right. split; [reflexivity |]. split; [| lia].
    replace i with ((i - 32) + 1 * 32)%nat at 1 by lia.
    rewrite Nat.Div0.mod_add. apply Nat.mod_small. lia.
Qed.

Lemma upd_same (f : nat -> Z) (k : nat) (v : Z) : upd f k v k = v.
Proof. unfold upd. rewrite Nat.eqb_refl. reflexivity. Qed.

Lemma upd_other (f : nat -> Z) (k j : nat) (v : Z) : j <> k -> upd f k v j = f j.
Proof. intros Hne. unfold upd. apply Nat.eqb_neq in Hne. rewrite Hne. reflexivity. Qed.

(** Reading the field back after a [modify] yields the masked value. *)
Lemma field_bits_read (mask v old : Z) :
  Z.land (field_bits mask v old) mask = Z.land v mask.
Proof.
  unfold field_bits. apply Z.bits_inj'. intros n Hn.
  rewrite !Z.land_spec, Z.lor_spec, !Z.land_spec, Z.lnot_spec by exact Hn.
  destruct (Z.testbit mask n), (Z.testbit old n), (Z.testbit v n); reflexivity.
Qed.

(** Bits outside the field keep the value read back. *)
Lemma field_bits_frame (mask v old n : Z) :
  (0 <= n)%Z -> Z.testbit mask n = false ->
  Z.testbit (field_bits mask v old) n = Z.testbit old n.
Proof.
  intros Hn Hm. unfold field_bits.
  rewrite Z.lor_spec, !Z.land_spec, Z.lnot_spec by exact Hn. rewrite Hm.
  destruct (Z.testbit old n), (Z.testbit v n); reflexivity.
Qed.

Lemma id_mask_high (n : Z) : (8 <= n)%Z -> Z.testbit 255 n = false.
Proof.
  intros Hn. apply Z.bits_above_log2; [lia |].
  change (Z.log2 255) with 7%Z. lia.
Qed.

(** Effects of [setup], with the bank and offset written as [i mod 32]. *)
Lemma setup_effects {E T} `{EtmEvent E} `{EtmTask T} (i : nat) (event : E) (task : T) :
  (i < 50)%nat ->
  snd (setup (mkEtmChannel i) event task) =
  [GuardAcquire;
   ModifyField (ChEvtId i) evt_id_mask (event_id event);
   ModifyField (ChTaskId i) task_id_mask (task_id task);
   Write (if Nat.ltb i 32 then ChEnaAd0Set else ChEnaAd1Set)
     (Z.shiftl 1 (Z.of_nat (i mod 32)))].
Proof.
  intros Hi. unfold setup, snd. cbn [channel_index app].
  destruct (bank_cases i Hi) as [[Hl Hm] | [Hl [Hm _]]];
    rewrite Hl, Hm, strobe_bit_pow; reflexivity.
Qed.

Lemma disable_channel_effects (i : nat) :
  (i < 50)%nat ->
  disable_channel i =
  [Write (if Nat.ltb i 32 then ChEnaAd0Clr else ChEnaAd1Clr)
     (Z.shiftl 1 (Z.of_nat (i mod 32)))].
Proof.
  intros Hi. unfold disable_channel.
  destruct (bank_cases i Hi) as [[Hl Hm] | [Hl [Hm _]]];
    rewrite Hl, Hm, strobe_bit_pow; reflexivity.
Qed.

(** Symbolic execution of a concrete effect list. *)
Ltac run_simpl :=
  cbn [run step bus_write read_reg fst snd app evt_id_reg task_id_reg
       ch_ena_ad0 ch_ena_ad1 usage_count enable_bank setup channel_index].

(** *** C1 *)

(** Claim C1, as stated, fails: [EtmChannel::setup] acquires the
    peripheral-usage guard first, before any register write, not last.
    On channel 0 with event id 5 and task id 9 its effects differ from
    the order event id, task id, set strobe, guard. *)
Lemma setup_order_cex :
  snd (setup (mkEtmChannel 0) (mkIdEvent 5) (mkIdTask 9)) <>
  [ModifyField (ChEvtId 0) evt_id_mask 5;
   ModifyField (ChTaskId 0) task_id_mask 9;
   Write ChEnaAd0Set (Z.shiftl 1 0);
   GuardAcquire].
Proof. simpl. discriminate. Qed.

(** Claim C1 (amended): for every channel index C of the matrix, every
    event and every task, [setup] first acquires the peripheral-usage
    guard, then writes [event.id()] into channel C's event-id field,
    then [task.id()] into its task-id field, and last writes a 1 at bit
    [C mod 32] of the set strobe register of C's bank; after it the
    usage count is one higher. *)
Theorem setup_effect_order {E T} `{EtmEvent E} `{EtmTask T}
    (C : nat) (event : E) (task : T) (s : hw) :
  (C < 50)%nat ->
  snd (setup (mkEtmChannel C) event task) =
  [GuardAcquire;
   ModifyField (ChEvtId C) evt_id_mask (event_id event);
   ModifyField (ChTaskId C) task_id_mask (task_id task);
   Write (if Nat.ltb C 32 then ChEnaAd0Set else ChEnaAd1Set)
     (Z.shiftl 1 (Z.of_nat (C mod 32)))] /\
  usage_count (fst (run s (snd (setup (mkEtmChannel C) event task)))) =
  S (usage_count s).
Proof.
  intros HC. rewrite (setup_effects C event task HC). split; [reflexivity |].
  destruct (Nat.ltb C 32); reflexivity.
Qed.

Lemma setup_effect_order_witness :
  (7 < 50)%nat /\
  snd (setup (mkEtmChannel 7) (mkIdEvent 3) (mkIdTask 4)) =
  [GuardAcquire; ModifyField (ChEvtId 7) evt_id_mask 3;
   ModifyField (ChTaskId 7) task_id_mask 4;
   Write ChEnaAd0Set (Z.shiftl 1 (Z.of_nat (7 mod 32)))] /\
  usage_count (fst (run reset_hw (snd (setup (mkEtmChannel 7) (mkIdEvent 3) (mkIdTask 4))))) =
  S (usage_count reset_hw).
Proof.
  split; [lia |].
  exact (setup_effect_order 7 (mkIdEvent 3) (mkIdTask 4) reset_hw ltac:(lia)).
Defined.


(** *** C2 *)

(** Claim C2: configuring channel [i] of the matrix writes a 1 at bit
    [i mod 32] of the set strobe register of [i]'s bank (low bank for
    [i < 32], high bank otherwise), after which bit [i mod 32] of that
    bank's enable bitmap is 1, whatever the state before; disabling
    channel [i] writes a 1 at bit [i mod 32] of the clear strobe register
    of the same bank. *)
Theorem setup_sets_enable_bit {E T} `{EtmEvent E} `{EtmTask T}
    (s : hw) (i : nat) (event : E) (task : T) :
  (i < 50)%nat ->
  In (Write (if Nat.ltb i 32 then ChEnaAd0Set else ChEnaAd1Set)
        (Z.shiftl 1 (Z.of_nat (i mod 32))))
     (snd (setup (mkEtmChannel i) event task)) /\
  Z.testbit (enable_bank (fst (run s (snd (setup (mkEtmChannel i) event task)))) i)
    (Z.of_nat (i mod 32)) = true /\
  disable_channel i =
  [Write (if Nat.ltb i 32 then ChEnaAd0Clr else ChEnaAd1Clr)
     (Z.shiftl 1 (Z.of_nat (i mod 32)))].
Proof.
  intros Hi. rewrite (setup_effects i event task Hi), (disable_channel_effects i Hi).
  split; [cbn [In]; right; right; right; left; reflexivity |].
  split; [| reflexivity].
  unfold enable_bank. destruct (Nat.ltb i 32); run_simpl;
    rewrite Z.lor_spec, testbit_shiftl_1 by lia; rewrite Z.eqb_refl, orb_true_r;
    reflexivity.
Qed.

Lemma setup_sets_enable_bit_witness :
  (40 < 50)%nat /\
  In (Write (if Nat.ltb 40 32 then ChEnaAd0Set else ChEnaAd1Set)
        (Z.shiftl 1 (Z.of_nat (40 mod 32))))
     (snd (setup (mkEtmChannel 40) (mkIdEvent 1) (mkIdTask 2))) /\
  Z.testbit (enable_bank (fst (run reset_hw
     (snd (setup (mkEtmChannel 40) (mkIdEvent 1) (mkIdTask 2))))) 40)
    (Z.of_nat (40 mod 32)) = true /\
  disable_channel 40 =
  [Write (if Nat.ltb 40 32 then ChEnaAd0Clr else ChEnaAd1Clr)
     (Z.shiftl 1 (Z.of_nat (40 mod 32)))].
Proof.
  split; [lia |].
  exact (setup_sets_enable_bit reset_hw 40 (mkIdEvent 1) (mkIdTask 2) ltac:(lia)).
Defined.

(** *** C4 *)

(** Claim C4: configuring channel [i] leaves [event.id()] and
    [task.id()], masked to the 8-bit field width, in the event-id and
    task-id fields of channel [i], and leaves the id registers of every
    other channel [j] as they were. *)
Theorem setup_writes_ids {E T} `{EtmEvent E} `{EtmTask T}
    (s : hw) (i j : nat) (event : E) (task : T) :
  let s' := fst (run s (snd (setup (mkEtmChannel i) event task))) in
  Z.land (evt_id_reg s' i) evt_id_mask = Z.land (event_id event) evt_id_mask /\
  Z.land (task_id_reg s' i) task_id_mask = Z.land (task_id task) task_id_mask /\
  (j <> i -> evt_id_reg s' j = evt_id_reg s j /\ task_id_reg s' j = task_id_reg s j).
Proof.
  intros s'. subst s'. run_simpl.
  destruct (Nat.ltb i 32); run_simpl; rewrite !upd_same;
    (split; [apply field_bits_read |]); (split; [apply field_bits_read |]);
    intros Hne; rewrite !upd_other by exact Hne; split; reflexivity.
Qed.

Lemma setup_writes_ids_witness :
  let s' := fst (run reset_hw (snd (setup (mkEtmChannel 3) (mkIdEvent 300) (mkIdTask 9)))) in
  Z.land (evt_id_reg s' 3) evt_id_mask = Z.land 300 evt_id_mask /\
  Z.land (task_id_reg s' 3) task_id_mask = Z.land 9 task_id_mask /\
  (4 <> 3 -> evt_id_reg s' 4 = evt_id_reg reset_hw 4 /\
             task_id_reg s' 4 = task_id_reg reset_hw 4).
Proof.
  exact (setup_writes_ids reset_hw 3 4 (mkIdEvent 300) (mkIdTask 9)).
Defined.

(** *** C9 *)

(** Claim C9: the id writes of [setup] are read-modify-writes: every bit
    of channel [C]'s event-id and task-id registers at position 8 or
    above (outside the [evt_id] and [task_id] fields) keeps its value. *)
Theorem setup_id_writes_keep_other_bits {E T} `{EtmEvent E} `{EtmTask T}
    (s : hw) (C : nat) (event : E) (task : T) (n : Z) :
  (8 <= n)%Z ->
  Z.testbit (evt_id_reg (fst (run s (snd (setup (mkEtmChannel C) event task)))) C) n =
  Z.testbit (evt_id_reg s C) n /\
  Z.testbit (task_id_reg (fst (run s (snd (setup (mkEtmChannel C) event task)))) C) n =
  Z.testbit (task_id_reg s C) n.
Proof.
  intros Hn. run_simpl.
  destruct (Nat.ltb C 32); run_simpl; rewrite !upd_same;
    split; apply field_bits_frame; (lia || apply id_mask_high; exact Hn).
Qed.

Lemma setup_id_writes_keep_other_bits_witness :
  (8 <= 9)%Z /\
  Z.testbit (evt_id_reg (fst (run (mkHw (fun _ => 512%Z) (fun _ => 512%Z) 0 0 0)
     (snd (setup (mkEtmChannel 5) (mkIdEvent 7) (mkIdTask 8))))) 5) 9 =
  Z.testbit 512 9 /\
  Z.testbit (task_id_reg (fst (run (mkHw (fun _ => 512%Z) (fun _ => 512%Z) 0 0 0)
     (snd (setup (mkEtmChannel 5) (mkIdEvent 7) (mkIdTask 8))))) 5) 9 =
  Z.testbit 512 9.
Proof.
  split; [lia |].
  exact (setup_id_writes_keep_other_bits (mkHw (fun _ => 512%Z) (fun _ => 512%Z) 0 0 0)
           5 (mkIdEvent 7) (mkIdTask 8) 9 ltac:(lia)).
Defined.


(** *** C3 *)

(** Clearing bit [k] of a bank leaves every other bit as it was. *)
Lemma clear_bit_other (x : Z) (k m : nat) :
  k <> m -> Z.testbit (Z.land x (Z.lnot (Z.shiftl 1 (Z.of_nat k)))) (Z.of_nat m) =
            Z.testbit x (Z.of_nat m).
Proof.
  intros Hne.
  rewrite Z.land_spec, Z.lnot_spec, testbit_shiftl_1 by lia.
  replace (Z.of_nat k =? Z.of_nat m)%Z with false by (symmetry; apply Z.eqb_neq; lia).
  apply andb_true_r.
Qed.

Lemma clear_bit_same (x : Z) (k : nat) :
  Z.testbit (Z.land x (Z.lnot (Z.shiftl 1 (Z.of_nat k)))) (Z.of_nat k) = false.
Proof.
  rewrite Z.land_spec, Z.lnot_spec, testbit_shiftl_1 by lia.
  rewrite Z.eqb_refl. apply andb_false_r.
Qed.

(** Claim C3: dropping the configured channel of index [i] first writes
    a 1 at bit [i mod 32] of the clear strobe register of [i]'s bank (the
    bank and offset of [setup]), then releases the usage guard; afterwards
    enable bit [i mod 32] of that bank is 0, the enable bit of every other
    channel [j] of the matrix is as before, and the event-id and task-id
    registers of all channels are unchanged. *)
Theorem drop_clears_own_enable_bit {E T} (s : hw) (cc : EtmConfiguredChannel E T) :
  (configured_index cc < 50)%nat ->
  let i := configured_index cc in
  let s' := fst (run s (drop_configured cc)) in
  drop_configured cc =
  [Write (if Nat.ltb i 32 then ChEnaAd0Clr else ChEnaAd1Clr)
     (Z.shiftl 1 (Z.of_nat (i mod 32)));
   GuardRelease] /\
  Z.testbit (enable_bank s' i) (Z.of_nat (i mod 32)) = false /\
  (forall j, (j < 50)%nat -> j <> i ->
     Z.testbit (enable_bank s' j) (Z.of_nat (j mod 32)) =
     Z.testbit (enable_bank s j) (Z.of_nat (j mod 32))) /\
  evt_id_reg s' = evt_id_reg s /\
  task_id_reg s' = task_id_reg s /\
  usage_count s' = Nat.pred (usage_count s).
Proof.
  intros Hi i s'. subst s'. unfold drop_configured. fold i. fold i in Hi.
  rewrite (disable_channel_effects i Hi).
  split; [reflexivity |].
  destruct (bank_cases i Hi) as [[Hl Hm] | [Hl [Hm Hlt]]]; rewrite Hl;
    run_simpl; unfold enable_bank; rewrite Hl.
  - split; [apply clear_bit_same |].
    split; [| repeat split].
    intros j Hj Hne. destruct (bank_cases j Hj) as [[Hl' Hm'] | [Hl' [Hm' _]]];
      rewrite Hl'; [| reflexivity].
    rewrite Hm, Hm'. apply clear_bit_other. exact (fun e => Hne (eq_sym e)).
  - split; [apply clear_bit_same |].
    split; [| repeat split].
    intros j Hj Hne. destruct (bank_cases j Hj) as [[Hl' Hm'] | [Hl' [Hm' _]]];
      rewrite Hl'; [reflexivity |].
    rewrite Hm, Hm'. apply Nat.ltb_ge in Hl, Hl'. apply clear_bit_other. lia.
Qed.

Lemma drop_clears_own_enable_bit_witness :
  (configured_index (mkEtmConfiguredChannel 33 (mkIdEvent 1) (mkIdTask 2)) < 50)%nat /\
  (let i := configured_index (mkEtmConfiguredChannel 33 (mkIdEvent 1) (mkIdTask 2)) in
   let s' := fst (run reset_hw
       (drop_configured (mkEtmConfiguredChannel 33 (mkIdEvent 1) (mkIdTask 2)))) in
   drop_configured (mkEtmConfiguredChannel 33 (mkIdEvent 1) (mkIdTask 2)) =
   [Write (if Nat.ltb i 32 then ChEnaAd0Clr else ChEnaAd1Clr)
      (Z.shiftl 1 (Z.of_nat (i mod 32)));
    GuardRelease] /\
   Z.testbit (enable_bank s' i) (Z.of_nat (i mod 32)) = false /\
   (forall j, (j < 50)%nat -> j <> i ->
      Z.testbit (enable_bank s' j) (Z.of_nat (j mod 32)) =
      Z.testbit (enable_bank reset_hw j) (Z.of_nat (j mod 32))) /\
   evt_id_reg s' = evt_id_reg reset_hw /\
   task_id_reg s' = task_id_reg reset_hw /\
   usage_count s' = Nat.pred (usage_count reset_hw)).
Proof.
  split; [cbn; lia |].
  exact (drop_clears_own_enable_bit reset_hw
           (mkEtmConfiguredChannel 33 (mkIdEvent 1) (mkIdTask 2)) ltac:(cbn; lia)).
Defined.

(** *** C5 *)

(** Claim C5: [Etm::new] keeps the peripheral handle and yields one
    unconfigured channel per index [0..49]: 50 channels, no index twice,
    every index below 50 present and none other.  Its result type is the
    [Etm] struct itself, with no error case. *)
Theorem etm_new_one_channel_per_index {P} (peripheral : P) :
  let chans := map channel_index (etm_channels (fst (etm_new peripheral))) in
  length chans = 50%nat /\ NoDup chans /\ (forall i, In i chans <-> (i < 50)%nat) /\
  _peripheral P (fst (etm_new peripheral)) = peripheral.
Proof.
  intros chans.
  assert (Hseq : chans = seq 0 50) by reflexivity.
  rewrite Hseq. split; [reflexivity |]. split; [apply seq_NoDup |].
  split; [| reflexivity].
  intros i. rewrite in_seq. lia.
Qed.

(** *** C6 *)

(** Claim C6: from any hardware state, configuring channel 0 with event
    id 5 and task id 9 sets low-bank enable bit 0 and leaves 5 and 9 in
    channel 0's event-id and task-id fields, and dropping the configured
    channel then clears low-bank bit 0; configuring channel 32 sets
    high-bank bit 0 and leaves the low-bank enable bitmap unchanged. *)
Theorem scenario_channel0_and_channel32 {E T} `{EtmEvent E} `{EtmTask T}
    (s : hw) (event : E) (task : T) :
  let cfg := setup (mkEtmChannel 0) (mkIdEvent 5) (mkIdTask 9) in
  let s1 := fst (run s (snd cfg)) in
  let s2 := fst (run s1 (drop_configured (fst cfg))) in
  let s3 := fst (run s (snd (setup (mkEtmChannel 32) event task))) in
  Z.testbit (ch_ena_ad0 s1) 0 = true /\
  Z.land (evt_id_reg s1 0) evt_id_mask = 5%Z /\
  Z.land (task_id_reg s1 0) task_id_mask = 9%Z /\
  Z.testbit (ch_ena_ad0 s2) 0 = false /\
  Z.testbit (ch_ena_ad1 s3) 0 = true /\
  ch_ena_ad0 s3 = ch_ena_ad0 s.
Proof.
  intros cfg s1 s2 s3. subst cfg s1 s2 s3. cbn.
  rewrite !field_bits_read, <- !Z.bit0_odd, !Z.land_spec, !Z.lor_spec.
  simpl. rewrite !orb_true_r, andb_false_r.
  repeat split.
Qed.

(** *** C8 *)

(** Claim C8: [Etm::new] performs no register write and acquires no
    guard: running its effects leaves the hardware state (enable bits,
    id registers, usage count) exactly as it was. *)
Theorem etm_new_no_hardware_effect {P} (peripheral : P) (s : hw) :
  run s (snd (etm_new peripheral)) = (s, []).
Proof. reflexivity. Qed.


(** *** C10 *)

(** Claim C10, as stated, fails: the id writes of [setup] are
    read-modify-writes, so the words written to the event-id register
    carry the bits read back from it.  The same channel, event and task,
    run from the reset state and from a state whose channel-0 event-id
    register has bit 8 set, give different register writes. *)
Lemma setup_writes_depend_on_prior_regs :
  snd (run reset_hw (snd (setup (mkEtmChannel 0) (mkIdEvent 5) (mkIdTask 9)))) <>
  snd (run (mkHw (fun _ => 256%Z) (fun _ => 0%Z) 0 0 0)
         (snd (setup (mkEtmChannel 0) (mkIdEvent 5) (mkIdTask 9)))).
Proof. vm_compute. discriminate. Qed.

(** Claim C10 (amended): the effects of [setup] (guard acquisition, the
    targets and the field values of the id writes, the strobe register
    and word written) depend only on the channel index, [event.id()] and
    [task.id()]; so two runs of [setup] on the same channel from the same
    hardware state, with events and tasks of equal ids, perform the same
    register writes and end in the same state. *)
Theorem setup_deterministic {E1 T1 E2 T2}
    `{EtmEvent E1} `{EtmTask T1} `{EtmEvent E2} `{EtmTask T2}
    (ch : EtmChannel) (e1 : E1) (t1 : T1) (e2 : E2) (t2 : T2) (s : hw) :
  event_id e1 = event_id e2 -> task_id t1 = task_id t2 ->
  snd (setup ch e1 t1) = snd (setup ch e2 t2) /\
  run s (snd (setup ch e1 t1)) = run s (snd (setup ch e2 t2)).
Proof.
  intros He Ht.
  assert (Heff : snd (setup ch e1 t1) = snd (setup ch e2 t2)).
  { unfold setup, snd. rewrite He, Ht. reflexivity. }
  rewrite Heff. split; reflexivity.
Qed.

Lemma setup_deterministic_witness :
  event_id (mkIdEvent 5) = event_id (mkIdEvent 5) /\
  task_id (mkIdTask 9) = task_id (mkIdTask 9) /\
  snd (setup (mkEtmChannel 40) (mkIdEvent 5) (mkIdTask 9)) =
  snd (setup (mkEtmChannel 40) (mkIdEvent 5) (mkIdTask 9)) /\
  run reset_hw (snd (setup (mkEtmChannel 40) (mkIdEvent 5) (mkIdTask 9))) =
  run reset_hw (snd (setup (mkEtmChannel 40) (mkIdEvent 5) (mkIdTask 9))).
Proof.
  split; [reflexivity |]. split; [reflexivity |].
  exact (setup_deterministic (mkEtmChannel 40) (mkIdEvent 5) (mkIdTask 9)
           (mkIdEvent 5) (mkIdTask 9) reset_hw eq_refl eq_refl).
Defined.

(** *** C7 *)

Lemma holds_In (i : nat) (l : list nat) : holds i l = true -> In i l.
Proof.
  unfold holds. intros Hh. apply existsb_exists in Hh as [x [Hx Heq]].
  apply Nat.eqb_eq in Heq. subst x. exact Hx.
Qed.

Lemma remove_one_perm (i : nat) (l : list nat) :
  In i l -> Permutation l (i :: remove_one i l).
Proof.
  induction l as [| x l IH]; intros Hin; [destruct Hin |].
  cbn [remove_one]. destruct (Nat.eqb_spec x i) as [-> | Hne].
  - reflexivity.
  - destruct Hin as [-> | Hin]; [contradiction |].
    eapply perm_trans; [apply perm_skip, (IH Hin) | apply perm_swap].
Qed.

Lemma count_perm_cons (i : nat) (L L' : list nat) :
  Permutation L (i :: L') ->
  forall x, (count_occ Nat.eq_dec L' x <= count_occ Nat.eq_dec L x)%nat.
Proof.
  intros Hp x. rewrite (proj1 (Permutation_count_occ Nat.eq_dec _ _) Hp x).
  cbn [count_occ]. destruct (Nat.eq_dec i x); lia.
Qed.

(** [Etm::new] hands out one channel value per index. *)
Lemma etm_new_indices_once (x : nat) :
  (count_occ Nat.eq_dec (map channel_index (etm_channels (fst (etm_new tt)))) x <= 1)%nat.
Proof.
  change (map channel_index (etm_channels (fst (etm_new tt)))) with (seq 0 50).
  exact (proj1 (NoDup_count_occ Nat.eq_dec _) (seq_NoDup 50 0) x).
Qed.

Lemma exec_mult (n : nat) (w w' : world) (o : op) :
  world_mult n w -> exec w o = Some w' ->
  world_mult (n + if is_new o then 1 else 0) w'.
Proof.
  intros Hm Hex x. specialize (Hm x). destruct w as [h u l].
  cbn [handle_owned unconfigured live_guards] in *.
  destruct o as [| | i | i | i];
    cbn [exec is_new handle_owned unconfigured live_guards] in Hex |- *.
  1, 2: destruct h; [| discriminate]; injection Hex as <-;
    cbn [unconfigured live_guards]; rewrite !count_occ_app in *;
    lazymatch goal with
    | |- context [count_occ _ (?c :: ?cs) ?y] =>
        pose proof (etm_new_indices_once y : (count_occ Nat.eq_dec (c :: cs) y <= 1)%nat)
    end; lia.
  - destruct (holds i u) eqn:Hi; [| discriminate]. injection Hex as <-.
    apply holds_In in Hi. cbn [unconfigured live_guards].
    assert (Hp : Permutation (u ++ l) (remove_one i u ++ i :: l)).
    { eapply perm_trans; [apply Permutation_app_tail, (remove_one_perm i u Hi) |].
      apply Permutation_middle. }
    rewrite <- (proj1 (Permutation_count_occ Nat.eq_dec _ _) Hp x). lia.
  - destruct (holds i l) eqn:Hi; [| discriminate]. injection Hex as <-.
    apply holds_In in Hi. cbn [unconfigured live_guards].
    assert (Hp : Permutation (u ++ l) (i :: u ++ remove_one i l)).
    { eapply perm_trans; [apply Permutation_app_head, (remove_one_perm i l Hi) |].
      symmetry. apply Permutation_middle. }
    pose proof (count_perm_cons i _ _ Hp x). lia.
  - destruct (holds i u) eqn:Hi; [| discriminate]. injection Hex as <-.
    apply holds_In in Hi. cbn [unconfigured live_guards].
    pose proof (count_perm_cons i (u ++ l) (remove_one i u ++ l)
                  (Permutation_app_tail l (remove_one_perm i u Hi)) x). lia.
Qed.

Lemma exec_all_mult (ops : list op) (n : nat) (w w' : world) :
  world_mult n w -> exec_all w ops = Some w' -> world_mult (n + count_news ops) w'.
Proof.
  revert n w. induction ops as [| o ops IH]; intros n w Hw Hex;
    cbn [exec_all count_news] in *.
  - injection Hex as <-. rewrite Nat.add_0_r. exact Hw.
  - destruct (exec w o) as [w1 |] eqn:Ho; [| discriminate].
    rewrite Nat.add_assoc. exact (IH _ w1 (exec_mult n w w1 o Hw Ho) Hex).
Qed.

Lemma init_world_mult : world_mult 0 init_world.
Proof. intros x. reflexivity. Qed.

Lemma world_mult_nodup (n : nat) (w : world) :
  (n <= 1)%nat -> world_mult n w -> NoDup (unconfigured w ++ live_guards w).
Proof.
  intros Hn Hm. apply (NoDup_count_occ Nat.eq_dec). intros x. specialize (Hm x). lia.
Qed.





(** ** Further properties of the driver *)

Lemma set_bit_other (x : Z) (k m : nat) :
  k <> m -> Z.testbit (Z.lor x (Z.shiftl 1 (Z.of_nat k))) (Z.of_nat m) =
            Z.testbit x (Z.of_nat m).
Proof.
  intros Hne. rewrite Z.lor_spec, testbit_shiftl_1 by lia.
  replace (Z.of_nat k =? Z.of_nat m)%Z with false by (symmetry; apply Z.eqb_neq; lia).
  apply orb_false_r.
Qed.

Lemma set_bit_same (x : Z) (k : nat) :
  Z.testbit (Z.lor x (Z.shiftl 1 (Z.of_nat k))) (Z.of_nat k) = true.
Proof. rewrite Z.lor_spec, testbit_shiftl_1 by lia. rewrite Z.eqb_refl. apply orb_true_r. Qed.

(** Enable bits after [setup] of channel [i]: bit of [i] set, the others kept. *)
Lemma setup_enable_bits {E T} `{EtmEvent E} `{EtmTask T}
    (s : hw) (i j : nat) (event : E) (task : T) :
  (i < 50)%nat -> (j < 50)%nat ->
  Z.testbit (enable_bank (fst (run s (snd (setup (mkEtmChannel i) event task)))) j)
    (Z.of_nat (j mod 32)) =
  if Nat.eqb j i then true else Z.testbit (enable_bank s j) (Z.of_nat (j mod 32)).
Proof.
  intros Hi Hj. rewrite (setup_effects i event task Hi).
  destruct (Nat.eqb_spec j i) as [-> | Hne].
  - destruct (bank_cases i Hi) as [[Hl _] | [Hl _]]; rewrite Hl; run_simpl; unfold enable_bank;
      rewrite Hl; apply set_bit_same.
  - destruct (bank_cases i Hi) as [[Hl Hm] | [Hl [Hm _]]];
      destruct (bank_cases j Hj) as [[Hl' Hm'] | [Hl' [Hm' _]]];
      rewrite Hl; run_simpl; unfold enable_bank; rewrite Hl'; try reflexivity;
      apply set_bit_other; apply Nat.ltb_lt in Hl || apply Nat.ltb_ge in Hl;
      (apply Nat.ltb_lt in Hl' || apply Nat.ltb_ge in Hl'); lia.
Qed.

(** Enable bits after dropping the guard of channel [i]: bit of [i] clear,
    the others kept. *)
Lemma drop_enable_bits {E T} (s : hw) (cc : EtmConfiguredChannel E T) (j : nat) :
  (configured_index cc < 50)%nat -> (j < 50)%nat ->
  Z.testbit (enable_bank (fst (run s (drop_configured cc))) j) (Z.of_nat (j mod 32)) =
  if Nat.eqb j (configured_index cc) then false
  else Z.testbit (enable_bank s j) (Z.of_nat (j mod 32)).
Proof.
  intros Hi Hj. unfold drop_configured. set (i := configured_index cc) in *.
  rewrite (disable_channel_effects i Hi).
  destruct (Nat.eqb_spec j i) as [-> | Hne].
  - destruct (bank_cases i Hi) as [[Hl _] | [Hl _]]; rewrite Hl; run_simpl; unfold enable_bank;
      rewrite Hl; apply clear_bit_same.
  - destruct (bank_cases i Hi) as [[Hl Hm] | [Hl [Hm _]]];
      destruct (bank_cases j Hj) as [[Hl' Hm'] | [Hl' [Hm' _]]];
      rewrite Hl; run_simpl; unfold enable_bank; rewrite Hl'; try reflexivity;
      apply clear_bit_other; apply Nat.ltb_lt in Hl || apply Nat.ltb_ge in Hl;
      (apply Nat.ltb_lt in Hl' || apply Nat.ltb_ge in Hl'); lia.
Qed.

Lemma setup_usage_count {E T} `{EtmEvent E} `{EtmTask T}
    (s : hw) (C : nat) (event : E) (task : T) :
  usage_count (fst (run s (snd (setup (mkEtmChannel C) event task)))) = S (usage_count s).
Proof. run_simpl. destruct (Nat.ltb C 32); reflexivity. Qed.

Lemma drop_usage_count {E T} (s : hw) (cc : EtmConfiguredChannel E T) :
  usage_count (fst (run s (drop_configured cc))) = Nat.pred (usage_count s).
Proof.
  unfold drop_configured, disable_channel. destruct (Nat.ltb (configured_index cc) 32);
    reflexivity.
Qed.

(** Configuring channel [i] and then dropping its guard returns every
    enable bit of the matrix to its value before, except the bit of [i],
    which ends cleared; the usage count returns to its value before, and
    channel [i]'s id fields keep the ids written by [setup]. *)
Theorem setup_then_drop {E T} `{EtmEvent E} `{EtmTask T}
    (s : hw) (i j : nat) (event : E) (task : T) :
  (i < 50)%nat -> (j < 50)%nat ->
  let cfg := setup (mkEtmChannel i) event task in
  let s' := fst (run (fst (run s (snd cfg))) (drop_configured (fst cfg))) in
  Z.testbit (enable_bank s' j) (Z.of_nat (j mod 32)) =
  (if Nat.eqb j i then false else Z.testbit (enable_bank s j) (Z.of_nat (j mod 32))) /\
  usage_count s' = usage_count s /\
  Z.land (evt_id_reg s' i) evt_id_mask = Z.land (event_id event) evt_id_mask /\
  Z.land (task_id_reg s' i) task_id_mask = Z.land (task_id task) task_id_mask.
Proof.
  intros Hi Hj cfg s'. subst cfg s'.
  rewrite (drop_enable_bits _ (fst (setup (mkEtmChannel i) event task)) j Hi Hj).
  cbn [fst configured_index setup channel_index].
  rewrite (setup_enable_bits s i j event task Hi Hj).
  split; [destruct (Nat.eqb j i); reflexivity |].
  rewrite drop_usage_count, setup_usage_count. split; [reflexivity |].
  unfold drop_configured, disable_channel, setup.
  cbn [fst snd configured_index channel_index app].
  destruct (Nat.ltb i 32); run_simpl; rewrite !upd_same;
    split; apply field_bits_read.
Qed.

Lemma setup_then_drop_witness :
  (40 < 50)%nat /\ (3 < 50)%nat /\
  (let cfg := setup (mkEtmChannel 40) (mkIdEvent 5) (mkIdTask 9) in
   let s' := fst (run (fst (run reset_hw (snd cfg))) (drop_configured (fst cfg))) in
   Z.testbit (enable_bank s' 3) (Z.of_nat (3 mod 32)) =
   (if Nat.eqb 3 40 then false else Z.testbit (enable_bank reset_hw 3) (Z.of_nat (3 mod 32))) /\
   usage_count s' = usage_count reset_hw /\
   Z.land (evt_id_reg s' 40) evt_id_mask = Z.land (event_id (mkIdEvent 5)) evt_id_mask /\
   Z.land (task_id_reg s' 40) task_id_mask = Z.land (task_id (mkIdTask 9)) task_id_mask).
Proof.
  split; [lia |]. split; [lia |].
  exact (setup_then_drop reset_hw 40 3 (mkIdEvent 5) (mkIdTask 9) ltac:(lia) ltac:(lia)).
Defined.

(** Configuring two different channels gives the same hardware state in
    either order: every id register, both enable bitmaps and the usage
    count agree. *)
Theorem setup_distinct_commute {E1 T1 E2 T2}
    `{EtmEvent E1} `{EtmTask T1} `{EtmEvent E2} `{EtmTask T2}
    (s : hw) (i j : nat) (e1 : E1) (t1 : T1) (e2 : E2) (t2 : T2) :
  i <> j ->
  hw_same
    (fst (run (fst (run s (snd (setup (mkEtmChannel i) e1 t1))))
              (snd (setup (mkEtmChannel j) e2 t2))))
    (fst (run (fst (run s (snd (setup (mkEtmChannel j) e2 t2))))
              (snd (setup (mkEtmChannel i) e1 t1)))).
Proof.
  intros Hne. run_simpl.
  assert (Hupd : forall (f : nat -> Z) (a b : Z) (c : nat),
             upd (upd f i a) j b c = upd (upd f j b) i a c).
  { intros f a b c. unfold upd.
    destruct (Nat.eqb_spec c j), (Nat.eqb_spec c i); try reflexivity. lia. }
  assert (Hri : forall (f : nat -> Z) (a : Z), upd f j a i = f i)
    by (intros; apply upd_other; exact Hne).
  assert (Hrj : forall (f : nat -> Z) (a : Z), upd f i a j = f j)
    by (intros; apply upd_other; intros ->; exact (Hne eq_refl)).
  destruct (Nat.ltb i 32), (Nat.ltb j 32); run_simpl;
    rewrite ?Hri, ?Hrj; unfold hw_same; cbn [evt_id_reg task_id_reg ch_ena_ad0 ch_ena_ad1 usage_count];
    (split; [intros c; apply Hupd |]); (split; [intros c; apply Hupd |]);
    rewrite <- ?Z.lor_assoc;
    repeat split; f_equal; apply Z.lor_comm.
Qed.

Lemma setup_distinct_commute_witness :
  (2 <> 40)%nat /\
  hw_same
    (fst (run (fst (run reset_hw (snd (setup (mkEtmChannel 2) (mkIdEvent 1) (mkIdTask 2)))))
              (snd (setup (mkEtmChannel 40) (mkIdEvent 3) (mkIdTask 4)))))
    (fst (run (fst (run reset_hw (snd (setup (mkEtmChannel 40) (mkIdEvent 3) (mkIdTask 4)))))
              (snd (setup (mkEtmChannel 2) (mkIdEvent 1) (mkIdTask 2))))).
Proof.
  split; [lia |].
  exact (setup_distinct_commute reset_hw 2 40 (mkIdEvent 1) (mkIdTask 2)
           (mkIdEvent 3) (mkIdTask 4) ltac:(lia)).
Defined.


(** *** Lists of held indices *)

Lemma remove_one_incl (i j : nat) (l : list nat) : In j (remove_one i l) -> In j l.
Proof.
  induction l as [| x l IH]; cbn [remove_one]; [tauto |].
  destruct (Nat.eqb x i); cbn [In]; [tauto |]. intros [-> | H]; [left | right; apply IH]; auto.
Qed.

Lemma remove_one_other (i j : nat) (l : list nat) :
  j <> i -> In j l -> In j (remove_one i l).
Proof.
  intros Hne. induction l as [| x l IH]; cbn [remove_one In]; [tauto |].
  destruct (Nat.eqb_spec x i) as [-> | Hx]; intros [-> | Hin].
  - contradiction.
  - exact Hin.
  - left; reflexivity.
  - right; apply IH; exact Hin.
Qed.

Lemma remove_one_length (i : nat) (l : list nat) :
  In i l -> length (remove_one i l) = Nat.pred (length l).
Proof. intros Hin. rewrite (Permutation_length (remove_one_perm i l Hin)). reflexivity. Qed.

Lemma remove_one_gone (i : nat) (l : list nat) :
  NoDup l -> In i l -> ~ In i (remove_one i l).
Proof.
  intros Hnd Hin. apply (Permutation_NoDup (remove_one_perm i l Hin)) in Hnd.
  apply NoDup_cons_iff in Hnd. exact (proj1 Hnd).
Qed.

Lemma remove_all_length (x : nat) (l : list nat) :
  length l = (count_occ Nat.eq_dec l x + length (remove Nat.eq_dec x l))%nat.
Proof.
  induction l as [| y l IH]; [reflexivity |]. cbn [count_occ remove length].
  destruct (Nat.eq_dec x y) as [-> | Hne]; destruct (Nat.eq_dec y y) as [_ | Hyy];
    try contradiction.
  - lia.
  - destruct (Nat.eq_dec y x) as [-> | _]; [contradiction |]. cbn [length]. lia.
Qed.

Lemma remove_count_le (x y : nat) (l : list nat) :
  (count_occ Nat.eq_dec (remove Nat.eq_dec x l) y <= count_occ Nat.eq_dec l y)%nat.
Proof.
  induction l as [| z l IH]; [reflexivity |]. cbn [remove count_occ].
  destruct (Nat.eq_dec x z); [destruct (Nat.eq_dec z y); lia |].
  cbn [count_occ]. destruct (Nat.eq_dec z y); lia.
Qed.

(** A list of indices below [k], each at most [n] times, has at most
    [k * n] entries. *)
Lemma bounded_mult_length (k n : nat) (l : list nat) :
  (forall j, In j l -> (j < k)%nat) ->
  (forall j, (count_occ Nat.eq_dec l j <= n)%nat) ->
  (length l <= k * n)%nat.
Proof.
  revert l. induction k as [| k IH]; intros l Hb Hc.
  - destruct l as [| x l]; [cbn; lia |]. specialize (Hb x (or_introl eq_refl)). lia.
  - rewrite (remove_all_length k l). specialize (Hc k) as Hk.
    assert (Hr : (length (remove Nat.eq_dec k l) <= k * n)%nat).
    { apply IH.
      - intros j Hj. apply in_remove in Hj as [Hj Hne]. specialize (Hb j Hj). lia.
      - intros j. specialize (Hc j). pose proof (remove_count_le k j l). lia. }
    cbn [Nat.mul]. lia.
Qed.

Lemma exec_bounded (w w' : world) (o : op) :
  world_bounded w -> exec w o = Some w' -> world_bounded w'.
Proof.
  intros Hb Hex. destruct w as [h u l]. unfold world_bounded in *.
  cbn [handle_owned unconfigured live_guards] in *.
  destruct o as [| | i | i | i]; cbn [exec handle_owned unconfigured live_guards] in Hex.
  1, 2: destruct h; [| discriminate]; injection Hex as <-;
    cbn [unconfigured live_guards]; intros j Hj; rewrite <- app_assoc in Hj;
    apply in_app_or in Hj as [Hj | Hj]; [apply Hb, in_or_app; left; exact Hj |];
    apply in_app_or in Hj as [Hj | Hj]; [| apply Hb, in_or_app; right; exact Hj];
    change (In j (seq 0 50)) in Hj; apply in_seq in Hj; lia.
  - destruct (holds i u) eqn:Hi; [| discriminate]. injection Hex as <-.
    apply holds_In in Hi. cbn [unconfigured live_guards]. intros j Hj.
    apply in_app_or in Hj as [Hj | [<- | Hj]]; apply Hb; apply in_or_app;
      [left; exact (remove_one_incl i j u Hj) | left; exact Hi | right; exact Hj].
  - destruct (holds i l) eqn:Hi; [| discriminate]. injection Hex as <-.
    cbn [unconfigured live_guards]. intros j Hj.
    apply in_app_or in Hj as [Hj | Hj]; apply Hb; apply in_or_app;
      [left; exact Hj | right; exact (remove_one_incl i j l Hj)].
  - destruct (holds i u) eqn:Hi; [| discriminate]. injection Hex as <-.
    cbn [unconfigured live_guards]. intros j Hj.
    apply in_app_or in Hj as [Hj | Hj]; apply Hb; apply in_or_app;
      [left; exact (remove_one_incl i j u Hj) | right; exact Hj].
Qed.

Lemma exec_all_bounded (ops : list op) (w0 w1 : world) :
  world_bounded w0 -> exec_all w0 ops = Some w1 -> world_bounded w1.
Proof.
  revert w0. induction ops as [| o ops IH]; intros w0 Hb Hx; cbn [exec_all] in Hx.
  - injection Hx as <-. exact Hb.
  - destruct (exec w0 o) as [w2 |] eqn:Ho; [| discriminate].
    exact (IH w2 (exec_bounded w0 w2 o Hb Ho) Hx).
Qed.

(** In every world reachable from the program start, the channel values
    and guards held carry indices below 50, at most [50] of them per call
    of [Etm::new]; with at most one call, no index is held twice. *)
Theorem reachable_world_bounded (ops : list op) (w : world) :
  exec_all init_world ops = Some w ->
  (forall j, In j (unconfigured w ++ live_guards w) -> (j < 50)%nat) /\
  (length (unconfigured w ++ live_guards w) <= 50 * count_news ops)%nat /\
  ((count_news ops <= 1)%nat -> NoDup (unconfigured w ++ live_guards w)).
Proof.
  intros Hex.
  pose proof (exec_all_bounded ops init_world w ltac:(intros j []) Hex) as Hb.
  pose proof (exec_all_mult ops 0 init_world w init_world_mult Hex) as Hm.
  split; [exact Hb |]. split.
  - exact (bounded_mult_length 50 _ _ Hb Hm).
  - intros Hn. exact (world_mult_nodup _ w Hn Hm).
Qed.

Lemma reachable_world_bounded_witness :
  exists w,
  exec_all init_world [OpNewReborrow; OpSetup 49; OpNew; OpDropChannel 3] = Some w /\
  (forall j, In j (unconfigured w ++ live_guards w) -> (j < 50)%nat) /\
  (length (unconfigured w ++ live_guards w) <=
     50 * count_news [OpNewReborrow; OpSetup 49; OpNew; OpDropChannel 3])%nat /\
  ((count_news [OpNewReborrow; OpSetup 49; OpNew; OpDropChannel 3] <= 1)%nat ->
   NoDup (unconfigured w ++ live_guards w)).
Proof.
  eexists. split; [reflexivity |].
  apply (reachable_world_bounded [OpNewReborrow; OpSetup 49; OpNew; OpDropChannel 3]).
  reflexivity.
Defined.

Lemma exec_keeps_consumed (w w1 : world) (o : op) (j : nat) :
  handle_owned w = false -> ~ In j (unconfigured w) -> ~ In j (live_guards w) ->
  exec w o = Some w1 ->
  handle_owned w1 = false /\ ~ In j (unconfigured w1) /\ ~ In j (live_guards w1).
Proof.
  intros Hh Hu Hl Ho. destruct w as [h u l].
  cbn [handle_owned unconfigured live_guards] in *. subst h.
  destruct o as [| | i | i | i]; cbn [exec handle_owned unconfigured live_guards] in Ho.
  - discriminate.
  - discriminate.
  - destruct (holds i u) eqn:Hi; [| discriminate]. injection Ho as <-.
    cbn [handle_owned unconfigured live_guards]. split; [reflexivity |]. split.
    + intros Hj. apply remove_one_incl in Hj. contradiction.
    + intros [<- | Hj]; [apply holds_In in Hi |]; contradiction.
  - destruct (holds i l) eqn:Hi; [| discriminate]. injection Ho as <-.
    cbn [handle_owned unconfigured live_guards]. split; [reflexivity |]. split.
    + exact Hu.
    + intros Hj. apply remove_one_incl in Hj. contradiction.
  - destruct (holds i u) eqn:Hi; [| discriminate]. injection Ho as <-.
    cbn [handle_owned unconfigured live_guards]. split; [reflexivity |]. split.
    + intros Hj. apply remove_one_incl in Hj. contradiction.
    + exact Hl.
Qed.

(** Once the peripheral handle itself has been moved into [Etm::new]
    (it is no longer held, so not even a reborrow of it can build the
    matrix again) and the program holds neither the unconfigured channel
    of index [j] nor a guard for it (it configured and released it, or
    dropped it), no later sequence of operations gives it back either:
    channel [j] can never be configured again. *)
Theorem consumed_channel_never_returns (ops : list op) (w w' : world) (j : nat) :
  handle_owned w = false -> ~ In j (unconfigured w) -> ~ In j (live_guards w) ->
  exec_all w ops = Some w' ->
  ~ In j (unconfigured w') /\ ~ In j (live_guards w').
Proof.
  revert w. induction ops as [| o ops IH]; intros w Hh Hu Hl Hex; cbn [exec_all] in Hex.
  - injection Hex as <-. split; assumption.
  - destruct (exec w o) as [w1 |] eqn:Ho; [| discriminate].
    destruct (exec_keeps_consumed w w1 o j Hh Hu Hl Ho) as [Hh1 [Hu1 Hl1]].
    exact (IH w1 Hh1 Hu1 Hl1 Hex).
Qed.

Lemma consumed_channel_never_returns_witness :
  handle_owned (mkWorld false [1; 2] [7]) = false /\
  ~ In 3%nat (unconfigured (mkWorld false [1; 2] [7])) /\
  ~ In 3%nat (live_guards (mkWorld false [1; 2] [7])) /\
  exec_all (mkWorld false [1; 2] [7]) [OpSetup 1; OpDropGuard 7; OpDropChannel 2] =
    Some (mkWorld false [] [1]) /\
  ~ In 3%nat (unconfigured (mkWorld false [] [1])) /\
  ~ In 3%nat (live_guards (mkWorld false [] [1])).
Proof.
  split; [reflexivity |]. split; [cbn; lia |]. split; [cbn; lia |].
  split; [reflexivity |].
  exact (consumed_channel_never_returns [OpSetup 1; OpDropGuard 7; OpDropChannel 2]
           (mkWorld false [1; 2] [7]) (mkWorld false [] [1]) 3 eq_refl
           ltac:(cbn; lia) ltac:(cbn; lia) eq_refl).
Defined.


(** *** Enable bits and usage count along a program run *)

Lemma sys_step_inv (s0 : hw) (n : nat) (st st' : world * hw) (o : sys_op) :
  sys_inv s0 n st -> sys_step st o = Some st' ->
  sys_inv s0 (n + if is_new (sys_owner_op o) then 1 else 0) st'.
Proof.
  destruct st as [w s]. intros [Hb [Hm [Hc [Hbits Hbits']]]] Hst. unfold sys_step in Hst.
  cbn [fst snd] in *.
  destruct (exec w (sys_owner_op o)) as [w' |] eqn:Hex; [| discriminate].
  injection Hst as <-.
  pose proof (exec_bounded w w' _ Hb Hex) as Hb'.
  pose proof (exec_mult n w w' _ Hm Hex) as Hm'.
  split; [exact Hb' |]. split; [exact Hm' |]. cbn [fst snd].
  destruct w as [h u l]. cbn [handle_owned unconfigured live_guards] in *.
  destruct o as [| | i ec tc | i | i];
    cbn [sys_owner_op exec is_new handle_owned unconfigured live_guards] in Hex |- *.
  1, 2: destruct h; [| discriminate]; injection Hex as <-; cbn [live_guards];
    split; [exact Hc |]; split; [exact Hbits |];
    intros Hn j _ Hin; exfalso; specialize (Hm j);
    cbn [unconfigured live_guards] in Hm; rewrite count_occ_app in Hm;
    apply (count_occ_In Nat.eq_dec) in Hin; lia.
  - rewrite Nat.add_0_r. destruct (holds i u) eqn:Hin; [| discriminate]. injection Hex as <-.
    apply holds_In in Hin. cbn [live_guards sys_effects].
    assert (Hi50 : (i < 50)%nat) by (apply Hb; apply in_or_app; left; exact Hin).
    split; [| split].
    + rewrite setup_usage_count, Hc. cbn [length]. lia.
    + intros j Hj. rewrite (setup_enable_bits s i j _ _ Hi50 Hj).
      destruct (Nat.eqb_spec j i) as [-> | Hne]; [intros _; left; reflexivity |].
      intros H. right. exact (Hbits j Hj H).
    + intros Hn j Hj. rewrite (setup_enable_bits s i j _ _ Hi50 Hj).
      destruct (Nat.eqb_spec j i) as [-> | Hne]; [intros _; reflexivity |].
      intros [H | H]; [congruence | exact (Hbits' Hn j Hj H)].
  - rewrite Nat.add_0_r. destruct (holds i l) eqn:Hin; [| discriminate]. injection Hex as <-.
    apply holds_In in Hin. cbn [live_guards sys_effects].
    assert (Hi50 : (i < 50)%nat) by (apply Hb; apply in_or_app; right; exact Hin).
    split; [| split].
    + rewrite drop_usage_count, Hc, remove_one_length by exact Hin.
      destruct l as [| x l']; [destruct Hin |]. cbn [length Nat.pred]. lia.
    + intros j Hj.
      rewrite (drop_enable_bits s (mkEtmConfiguredChannel i (mkIdEvent 0) (mkIdTask 0)) j
                 Hi50 Hj).
      cbn [configured_index]. destruct (Nat.eqb_spec j i) as [-> | Hne]; [discriminate |].
      intros H. apply remove_one_other; [exact Hne | exact (Hbits j Hj H)].
    + intros Hn j Hj.
      rewrite (drop_enable_bits s (mkEtmConfiguredChannel i (mkIdEvent 0) (mkIdTask 0)) j
                 Hi50 Hj).
      cbn [configured_index]. destruct (Nat.eqb_spec j i) as [-> | Hne].
      * pose proof (NoDup_app_remove_l _ _
                      (world_mult_nodup n (mkWorld h u l) Hn Hm)) as Hndl.
        intros H. exfalso. exact (remove_one_gone i l Hndl Hin H).
      * intros H. exact (Hbits' Hn j Hj (remove_one_incl i j l H)).
  - rewrite Nat.add_0_r. destruct (holds i u) eqn:Hin; [| discriminate]. injection Hex as <-.
    cbn [live_guards sys_effects run fst].
    split; [exact Hc |]. split; [exact Hbits | exact Hbits'].
Qed.

Lemma sys_run_inv (s0 : hw) (ops : list sys_op) (n : nat) (st st' : world * hw) :
  sys_inv s0 n st -> sys_run st ops = Some st' ->
  sys_inv s0 (n + count_news (map sys_owner_op ops)) st'.
Proof.
  revert n st. induction ops as [| o ops IH]; intros n st Hst Hr;
    cbn [sys_run map count_news] in *.
  - injection Hr as <-. rewrite Nat.add_0_r. exact Hst.
  - destruct (sys_step st o) as [st1 |] eqn:Ho; [| discriminate].
    rewrite Nat.add_assoc. exact (IH _ st1 (sys_step_inv s0 n st st1 o Hst Ho) Hr).
Qed.

(** Along any program run started from a state whose enable bitmaps are
    all 0, the usage count is its start value plus the number of live
    guards, and the enable bit of channel [j] is set only while a guard
    for [j] is live.  When [Etm::new] was called at most once, the bit of
    every index with a live guard is set. *)
Theorem enable_bits_track_live_guards (ops : list sys_op) (s0 s : hw) (w : world) :
  ch_ena_ad0 s0 = 0%Z -> ch_ena_ad1 s0 = 0%Z ->
  sys_run (init_world, s0) ops = Some (w, s) ->
  usage_count s = (usage_count s0 + length (live_guards w))%nat /\
  (forall j, (j < 50)%nat ->
     Z.testbit (enable_bank s j) (Z.of_nat (j mod 32)) = true -> In j (live_guards w)) /\
  ((count_news (map sys_owner_op ops) <= 1)%nat -> forall j, (j < 50)%nat ->
     In j (live_guards w) -> Z.testbit (enable_bank s j) (Z.of_nat (j mod 32)) = true).
Proof.
  intros H0 H1 Hrun.
  assert (Hinit : sys_inv s0 0 (init_world, s0)).
  { split; [intros j [] |]. split; [exact init_world_mult |].
    cbn [fst snd live_guards init_world length]. split; [lia |].
    split; [| intros _ j _ []].
    intros j _. unfold enable_bank. destruct (Nat.ltb j 32);
      rewrite ?H0, ?H1, Z.testbit_0_l; discriminate. }
  destruct (sys_run_inv s0 ops 0 _ _ Hinit Hrun) as [_ [_ [Hc [Hbits Hbits']]]].
  split; [exact Hc |]. split; [exact Hbits | exact Hbits'].
Qed.

Lemma enable_bits_track_live_guards_witness :
  exists w s,
  ch_ena_ad0 reset_hw = 0%Z /\ ch_ena_ad1 reset_hw = 0%Z /\
  sys_run (init_world, reset_hw)
    [SysNewReborrow; SysSetup 3 5 9; SysSetup 40 1 2; SysDropChannel 7; SysDropGuard 3] =
    Some (w, s) /\
  usage_count s = (usage_count reset_hw + length (live_guards w))%nat /\
  (forall j, (j < 50)%nat ->
     Z.testbit (enable_bank s j) (Z.of_nat (j mod 32)) = true -> In j (live_guards w)) /\
  ((count_news (map sys_owner_op
      [SysNewReborrow; SysSetup 3 5 9; SysSetup 40 1 2; SysDropChannel 7; SysDropGuard 3])
      <= 1)%nat -> forall j, (j < 50)%nat ->
     In j (live_guards w) -> Z.testbit (enable_bank s j) (Z.of_nat (j mod 32)) = true).
Proof.
  do 2 eexists. split; [reflexivity |]. split; [reflexivity |].
  split; [reflexivity |].
  exact (enable_bits_track_live_guards
           [SysNewReborrow; SysSetup 3 5 9; SysSetup 40 1 2; SysDropChannel 7; SysDropGuard 3]
           reset_hw _ _ eq_refl eq_refl eq_refl).
Defined.

(** *** Strobe words *)

(** For every channel [Etm::new] hands out, each strobe word written by
    [setup] or by dropping its guard is a single bit [2^n] with [n < 32]:
    the offset given to [ch_set]/[ch_clr] stays inside the 32-bit strobe
    registers, and [C - 32] is only computed for [C >= 32]. *)
Theorem strobe_words_single_bit {P E T} `{EtmEvent E} `{EtmTask T}
    (peripheral : P) (ch : EtmChannel) (event : E) (task : T) (r : reg) (v : Z) :
  In ch (etm_channels (fst (etm_new peripheral))) ->
  In (Write r v) (snd (setup ch event task) ++
                  drop_configured (fst (setup ch event task))) ->
  exists n, (n < 32)%nat /\ v = (2 ^ Z.of_nat n)%Z.
Proof.
  intros Hch Hw. destruct ch as [C].
  assert (HC : (C < 50)%nat).
  { apply (in_map channel_index) in Hch. change (In C (seq 0 50)) in Hch.
    apply in_seq in Hch. lia. }
  exists (C mod 32)%nat. split; [apply Nat.mod_upper_bound; discriminate |].
  unfold drop_configured in Hw. cbn [fst setup configured_index channel_index] in Hw.
  rewrite (setup_effects C event task HC), (disable_channel_effects C HC) in Hw.
  cbn [app In] in Hw.
  destruct Hw as [Hw | [Hw | [Hw | [Hw | [Hw | [Hw | []]]]]]]; try discriminate;
    injection Hw as _ <-; apply Z.shiftl_1_l.
Qed.

Lemma strobe_words_single_bit_witness :
  In (mkEtmChannel 45) (etm_channels (fst (etm_new tt))) /\
  In (Write ChEnaAd1Clr (Z.shiftl 1 13))
     (snd (setup (mkEtmChannel 45) (mkIdEvent 1) (mkIdTask 2)) ++
      drop_configured (fst (setup (mkEtmChannel 45) (mkIdEvent 1) (mkIdTask 2)))) /\
  exists n, (n < 32)%nat /\ Z.shiftl 1 13 = (2 ^ Z.of_nat n)%Z.
Proof.
  assert (Hin : In (mkEtmChannel 45) (etm_channels (fst (etm_new tt))))
    by (cbn; tauto).
  assert (Hw : In (Write ChEnaAd1Clr (Z.shiftl 1 13))
     (snd (setup (mkEtmChannel 45) (mkIdEvent 1) (mkIdTask 2)) ++
      drop_configured (fst (setup (mkEtmChannel 45) (mkIdEvent 1) (mkIdTask 2)))))
    by (cbn; tauto).
  split; [exact Hin |]. split; [exact Hw |].
  exact (strobe_words_single_bit tt (mkEtmChannel 45) (mkIdEvent 1) (mkIdTask 2) _ _ Hin Hw).
Defined.

End Etm.
